(** * EasyPrivateVoting: a shallow embedding of the ballot contract

    The contract [src/main.nr] keeps four storage slots (admin, tally,
    vote_ended, active_at_block), one private entry point ([cast_vote]), three
    public ones ([constructor], [add_to_tally_public], [end_vote]) and four
    utility readers.  Public functions are embedded in a small state-and-failure
    monad over the storage record; the private function is a pure function on
    the private execution context that accumulates nullifiers and enqueued
    public calls.  The transaction host (nullifier set, atomic commit) is not
    part of the repository and is modelled from the specification. *)

From stdpp Require Import gmap strings list.
From Stdlib Require Import ZArith Lia.

Open Scope Z_scope.

(** ** Field elements

    Noir's [Field] is the scalar field of BN254.  A field element is carried as
    its canonical representative in [Z]; addition reduces modulo the prime. *)

Abbreviation Field := Z (only parsing).

Module Fr.
Definition modulus : Z :=
  21888242871839275222246405745257275088548364400416034343698204186575808495617.

Definition add (a b : Z) : Z := (a + b) mod modulus.
End Fr.

(** ** Framework types *)

Record AztecAddress := mkAddress { inner : Field }.

#[global] Instance AztecAddress_eq_dec : EqDecision AztecAddress.
Proof. solve_decision. Defined.

Record Point := mkPoint { px : Field; py : Field; is_infinite : bool }.

Record PublicKeys := mkPublicKeys {
  npk_m : Point;
  ivpk_m : Point;
  ovpk_m : Point;
  tpk_m : Point
}.

(** The traits [ToField] and [Hash] of [protocol_types::traits]. *)
Class ToField (A : Type) := to_field : A -> Field.
Class Hash (A : Type) := hash : A -> Field.

#[global] Instance AztecAddress_ToField : ToField AztecAddress := inner.

(** The collaborators the private function calls into: the key oracle
    ([get_public_keys], [request_nsk_app], the latter scoped to the calling
    contract), the hash of a point and the Pedersen hash of [std::hash]. *)
Class Environment := {
  get_public_keys : AztecAddress -> PublicKeys;
  point_hash : Point -> Field;
  request_nsk_app : AztecAddress -> Field -> Field;
  pedersen_hash : list Field -> Field
}.

#[global] Instance Point_Hash `{Environment} : Hash Point := point_hash.

(** ** Failures

    A failed [assert] carries the message of the source.  The three failures the
    specification names are given their names here. *)

Inductive Failure :=
| AssertFailed (msg : string)
| NullifierExists
| NotInitialized
| AlreadyInitialized.

#[global] Instance Failure_eq_dec : EqDecision Failure.
Proof. solve_decision. Defined.

Definition VotingEnded : Failure := AssertFailed "Vote has ended".
Definition Unauthorized : Failure := AssertFailed "Only admin can end vote".
Definition DuplicateVote : Failure := NullifierExists.
Definition InternalOnly : Failure :=
  AssertFailed "Function add_to_tally_public can only be called internally".
Definition ImmutableInitialized : Failure :=
  AssertFailed "PublicImmutable already initialized".

Inductive Outcome (A : Type) :=
| Done (a : A)
| Reverted (f : Failure).
Arguments Done {A} a.
Arguments Reverted {A} f.

(** ** Storage *)

Record Storage := mkStorage {
  admin : AztecAddress;
  tally : gmap Z Z;
  vote_ended : bool;
  active_at_block : option Z
}.

(** Storage of a contract that was never written: every slot reads zero. *)
Definition empty_storage : Storage :=
  {| admin := mkAddress 0; tally := ∅; vote_ended := false;
     active_at_block := None |}.

(** ** Execution monad of public and utility functions

    A computation reads and writes the storage and may fail at an [assert]; the
    storage it returns with a failure is the storage as written up to the failed
    assertion, which the host then discards. *)

Definition Exec (A : Type) : Type := Storage -> Storage * Outcome A.

Definition ret {A} (a : A) : Exec A := fun s => (s, Done a).

Definition bind {A B} (m : Exec A) (k : A -> Exec B) : Exec B :=
  fun s =>
    match m s with
    | (s', Done a) => k a s'
    | (s', Reverted f) => (s', Reverted f)
    end.

#[global] Instance Exec_ret : MRet Exec := @ret.
#[global] Instance Exec_bind : MBind Exec := fun A B k m => bind m k.

Definition assert_ (cond : bool) (f : Failure) : Exec unit :=
  fun s => if cond then (s, Done tt) else (s, Reverted f).

(** The call context shared by the private and the public context. *)
Record CallContext := mkCall {
  msg_sender : AztecAddress;
  this_address : AztecAddress;
  block_number : Z
}.

Module EasyPrivateVoting.

(** *** Storage handles: [PublicMutable], [Map] and [PublicImmutable] *)

Definition admin_read : Exec AztecAddress := fun s => (s, Done (admin s)).

Definition admin_write (a : AztecAddress) : Exec unit :=
  fun s => ({| admin := a; tally := tally s; vote_ended := vote_ended s;
               active_at_block := active_at_block s |}, Done tt).

Definition vote_ended_read : Exec bool := fun s => (s, Done (vote_ended s)).

Definition vote_ended_write (b : bool) : Exec unit :=
  fun s => ({| admin := admin s; tally := tally s; vote_ended := b;
               active_at_block := active_at_block s |}, Done tt).

(** [storage.tally.at(candidate).read()]: a slot never written reads 0. *)
Definition tally_at_read (candidate : Field) : Exec Field :=
  fun s => (s, Done (default 0 (tally s !! candidate))).

Definition tally_at_write (candidate v : Field) : Exec unit :=
  fun s => ({| admin := admin s; tally := <[candidate := v]> (tally s);
               vote_ended := vote_ended s;
               active_at_block := active_at_block s |}, Done tt).

(** Modelled from the spec: [PublicImmutable::initialize] is framework code
    outside the repository; section 3 has ActiveAtBlock "recorded once at
    construction" and "never mutated", so a second initialisation fails. *)
Definition active_at_block_initialize (v : Z) : Exec unit :=
  fun s =>
    match active_at_block s with
    | Some _ => (s, Reverted ImmutableInitialized)
    | None => ({| admin := admin s; tally := tally s;
                  vote_ended := vote_ended s;
                  active_at_block := Some v |}, Done tt)
    end.

Definition active_at_block_read : Exec Z :=
  fun s => (s, Done (default 0 (active_at_block s))).

(** *** Public functions *)

Definition constructor (context : CallContext) (admin : AztecAddress)
  : Exec unit :=
  admin_write admin ;;
  vote_ended_write false ;;
  active_at_block_initialize (block_number context).

(** Modelled from the spec: the attribute [internal] is framework code
    outside the repository; section 4.4 has the function "callable only as
    the staged effect" of [cast_vote], "never directly by external callers",
    so the body is preceded by the check that the caller is the contract
    itself. *)
Definition internal (context : CallContext) : Exec unit :=
  assert_ (bool_decide (msg_sender context = this_address context))
          InternalOnly.

Definition add_to_tally_public (context : CallContext) (candidate : Field)
  : Exec unit :=
  internal context ;;
  ended ← vote_ended_read;
  assert_ (Bool.eqb ended false) VotingEnded ;;
  t ← tally_at_read candidate;
  let new_tally := Fr.add t 1 in
  tally_at_write candidate new_tally.

Definition end_vote (context : CallContext) : Exec unit :=
  a ← admin_read;
  assert_ (bool_decide (a = msg_sender context)) Unauthorized ;;
  vote_ended_write true.

(** *** Utility functions *)

Definition get_vote (candidate : Field) : Exec Field :=
  tally_at_read candidate.

Definition get_vote_ended : Exec bool := vote_ended_read.

Definition get_admin : Exec AztecAddress := admin_read.

Definition get_active_at_block : Exec Z := active_at_block_read.

(** *** The private function *)

Inductive PublicCall :=
| call_add_to_tally_public (candidate : Field).

Record PublicCallRequest := mkRequest {
  request_sender : AztecAddress;
  request_target : AztecAddress;
  request_call : PublicCall
}.

Record PrivateContext := mkPrivate {
  call_context : CallContext;
  nullifiers : list Field;
  public_call_requests : list PublicCallRequest
}.

Definition push_nullifier (context : PrivateContext) (n : Field)
  : PrivateContext :=
  {| call_context := call_context context;
     nullifiers := nullifiers context ++ [n];
     public_call_requests := public_call_requests context |}.

(** [Contract::at(target).f(args).enqueue(&mut context)]: the enqueued call
    runs later with the enqueuing contract as its sender. *)
Definition enqueue (context : PrivateContext) (target : AztecAddress)
    (c : PublicCall) : PrivateContext :=
  {| call_context := call_context context;
     nullifiers := nullifiers context;
     public_call_requests :=
       public_call_requests context ++
       [ {| request_sender := this_address (call_context context);
            request_target := target;
            request_call := c |} ] |}.

Section Private.
Context `{Environment}.

(** The nullifier of lines 31-33: it is computed from the context alone. *)
Definition vote_nullifier (context : PrivateContext) : Field :=
  let sender := msg_sender (call_context context) in
  let msg_sender_npk_m_hash := hash (npk_m (get_public_keys sender)) in
  let secret :=
    request_nsk_app (this_address (call_context context))
                    msg_sender_npk_m_hash in
  pedersen_hash [to_field sender; secret].

Definition cast_vote (context : PrivateContext) (candidate : Field)
  : PrivateContext :=
  let nullifier := vote_nullifier context in
  let context := push_nullifier context nullifier in
  enqueue context (this_address (call_context context))
          (call_add_to_tally_public candidate).
End Private.

End EasyPrivateVoting.

Import EasyPrivateVoting.

(** ** The transaction host

    Modelled from the spec: the host runtime is not code of the repository.
    Sections 5 and 6 give it a global nullifier set with "insert-if-absent"
    semantics and an atomic commit: the nullifier insertions of a transaction
    and its staged public calls commit together, and a failure anywhere
    discards all of them.  Section 4.1 has the constructor run exactly once,
    before any other entry point is reachable (the attribute [initializer]). *)

Record World := mkWorld {
  address : AztecAddress;
  storage : Storage;
  nullifier_set : gset Z;
  initialized : bool
}.

Definition genesis (addr : AztecAddress) (ns : gset Z) : World :=
  {| address := addr; storage := empty_storage; nullifier_set := ns;
     initialized := false |}.

Inductive EntryPoint :=
| entry_constructor (admin : AztecAddress)
| entry_cast_vote (candidate : Field)
| entry_add_to_tally_public (candidate : Field)
| entry_end_vote.

Record Tx := mkTx {
  tx_sender : AztecAddress;
  tx_block : Z;
  tx_entry : EntryPoint
}.

Definition insert_if_absent (n : Z) (ns : gset Z) : option (gset Z) :=
  if decide (n ∈ ns) then None else Some ({[ n ]} ∪ ns).

Fixpoint insert_all (l : list Z) (ns : gset Z) : option (gset Z) :=
  match l with
  | [] => Some ns
  | n :: l' =>
      match insert_if_absent n ns with
      | Some ns' => insert_all l' ns'
      | None => None
      end
  end.

Definition run_call (blk : Z) (r : PublicCallRequest) : Exec unit :=
  match request_call r with
  | call_add_to_tally_public candidate =>
      add_to_tally_public
        {| msg_sender := request_sender r; this_address := request_target r;
           block_number := blk |} candidate
  end.

Fixpoint run_calls (blk : Z) (rs : list PublicCallRequest) : Exec unit :=
  match rs with
  | [] => mret tt
  | r :: rs' => run_call blk r ;; run_calls blk rs'
  end.

(** Commit the storage a public computation leaves, or keep the world as it
    was when the computation fails. *)
Definition settle (w : World) (ns : gset Z) (init : bool)
    (r : Storage * Outcome unit) : World * Outcome unit :=
  match r with
  | (s', Done _) =>
      ({| address := address w; storage := s'; nullifier_set := ns;
          initialized := init |}, Done tt)
  | (_, Reverted f) => (w, Reverted f)
  end.

Section Host.
Context `{Environment}.

Definition tx_context (tx : Tx) (w : World) : CallContext :=
  {| msg_sender := tx_sender tx; this_address := address w;
     block_number := tx_block tx |}.

Definition process (tx : Tx) (w : World) : World * Outcome unit :=
  let context := tx_context tx w in
  match tx_entry tx with
  | entry_constructor a =>
      if initialized w then (w, Reverted AlreadyInitialized)
      else settle w (nullifier_set w) true (constructor context a (storage w))
  | entry_cast_vote candidate =>
      if negb (initialized w) then (w, Reverted NotInitialized)
      else
        let private :=
          cast_vote {| call_context := context; nullifiers := [];
                       public_call_requests := [] |} candidate in
        match insert_all (nullifiers private) (nullifier_set w) with
        | None => (w, Reverted DuplicateVote)
        | Some ns' =>
            settle w ns' true
              (run_calls (tx_block tx) (public_call_requests private)
                         (storage w))
        end
  | entry_add_to_tally_public candidate =>
      if negb (initialized w) then (w, Reverted NotInitialized)
      else settle w (nullifier_set w) true
             (add_to_tally_public context candidate (storage w))
  | entry_end_vote =>
      if negb (initialized w) then (w, Reverted NotInitialized)
      else settle w (nullifier_set w) true (end_vote context (storage w))
  end.

Definition step (tx : Tx) (w : World) : World := fst (process tx w).

Fixpoint run (txs : list Tx) (w : World) : World :=
  match txs with
  | [] => w
  | tx :: txs' => run txs' (step tx w)
  end.

(** The worlds an execution passes through, the first one included. *)
Fixpoint trace (txs : list Tx) (w : World) : list World :=
  match txs with
  | [] => [w]
  | tx :: txs' => w :: trace txs' (step tx w)
  end.

(** The nullifier a voter's [cast_vote] pushes on the ballot of [w]. *)
Definition nullifier_of (voter : AztecAddress) (w : World) : Field :=
  vote_nullifier
    {| call_context := {| msg_sender := voter; this_address := address w;
                          block_number := 0 |};
       nullifiers := []; public_call_requests := [] |}.
End Host.

(** Number of places where a list of flags goes from [a] to [b]. *)
Fixpoint edges (a b : bool) (l : list bool) : nat :=
  match l with
  | x :: ((y :: _) as l') =>
      ((if Bool.eqb x a && Bool.eqb y b then 1 else 0) + edges a b l')%nat
  | _ => 0%nat
  end.

(** The count [get_vote] returns for a candidate. *)
Definition votes (s : Storage) (candidate : Field) : Field :=
  match snd (get_vote candidate s) with
  | Done v => v
  | Reverted _ => 0
  end.

(** Storage with one slot replaced, for stating what a function writes. *)
Definition set_vote_ended (b : bool) (s : Storage) : Storage :=
  {| admin := admin s; tally := tally s; vote_ended := b;
     active_at_block := active_at_block s |}.

Definition set_tally (candidate v : Field) (s : Storage) : Storage :=
  {| admin := admin s; tally := <[candidate := v]> (tally s);
     vote_ended := vote_ended s; active_at_block := active_at_block s |}.

(** What one transaction can do to a world: nothing, one more vote for a
    candidate, the end of voting, or the construction of the ballot. *)
Inductive Effect (w w' : World) : Prop :=
| effect_none : w' = w -> Effect w w'
| effect_vote (candidate : Field) (ns : gset Z) :
    initialized w = true ->
    vote_ended (storage w) = false ->
    nullifier_set w ⊆ ns ->
    w' = {| address := address w;
            storage := set_tally candidate
              (Fr.add (votes (storage w) candidate) 1) (storage w);
            nullifier_set := ns; initialized := true |} ->
    Effect w w'
| effect_end :
    initialized w = true ->
    w' = {| address := address w;
            storage := set_vote_ended true (storage w);
            nullifier_set := nullifier_set w; initialized := true |} ->
    Effect w w'
| effect_construct (a : AztecAddress) (blk : Z) :
    initialized w = false ->
    w' = {| address := address w;
            storage := {| admin := a; tally := tally (storage w);
                          vote_ended := false;
                          active_at_block := Some blk |};
            nullifier_set := nullifier_set w; initialized := true |} ->
    Effect w w'.

(** The flag along an execution, and the worlds in which a flag that is set
    belongs to a constructed ballot. *)
Definition flags (ws : list World) : list bool :=
  map (fun w => vote_ended (storage w)) ws.

Definition settled (w : World) : Prop :=
  initialized w = false -> vote_ended (storage w) = false.

(** A toy instance of the collaborators, for evaluating the model. *)
Definition toy_environment : Environment :=
  {| get_public_keys := fun a =>
       let p := mkPoint (inner a) 1 false in mkPublicKeys p p p p;
     point_hash := fun p => Fr.add (px p) (py p);
     request_nsk_app := fun app h => Fr.add (inner app) h;
     pedersen_hash := fun l => foldr Fr.add 0 l |}.

(** An instance in which the nullifier of a voter is the voter's address, so
    that every field element is the nullifier of some voter. *)
Definition plain_environment : Environment :=
  {| get_public_keys := fun a =>
       let p := mkPoint (inner a) 1 false in mkPublicKeys p p p p;
     point_hash := px;
     request_nsk_app := fun app h => h;
     pedersen_hash := fun l => hd 0 l |}.

(** ** A small election, for evaluating the model

    Admin 100 constructs the ballot at address 500 in block 5; voters 11 and 12
    vote for candidate 7; the admin ends the vote. *)
Module Election.
Definition admin_id : AztecAddress := mkAddress 100.
Definition ballot : AztecAddress := mkAddress 500.
Definition alice : AztecAddress := mkAddress 11.
Definition bob : AztecAddress := mkAddress 12.
Definition carol : AztecAddress := mkAddress 13.

Definition construct : Tx := mkTx admin_id 5 (entry_constructor admin_id).
Definition vote (voter : AztecAddress) (candidate : Field) : Tx :=
  mkTx voter 6 (entry_cast_vote candidate).
Definition close (sender : AztecAddress) : Tx := mkTx sender 8 entry_end_vote.

Definition constructed : World :=
  run (H := toy_environment) [construct] (genesis ballot ∅).
Definition open : World :=
  run (H := toy_environment) [vote alice 7; vote bob 7] constructed.
Definition ended : World :=
  run (H := toy_environment) [close admin_id] open.

(** A constructed ballot whose count for candidate 7 is the largest field
    element. *)
Definition full : World :=
  {| address := ballot;
     storage := {| admin := admin_id; tally := {[ 7 := Fr.modulus - 1 ]};
                   vote_ended := false; active_at_block := Some 5 |};
     nullifier_set := ∅; initialized := true |}.

(** Voters 0, 1, ..., n-1 voting for candidate 7, one after the other. *)
Definition crowd (n : nat) : list Tx :=
  map (fun k => vote (mkAddress (Z.of_nat k)) 7) (seq 0 n).

(** The ballot after the first [n] of them have voted. *)
Definition crowded (n : nat) (w : World) : Prop :=
  address w = ballot /\ initialized w = true /\
  vote_ended (storage w) = false /\
  votes (storage w) 7 = Z.of_nat n /\
  forall k, k ∈ nullifier_set w <-> 0 <= k < Z.of_nat n.
End Election.

(** ** Observations on executions, for the further properties *)

(** [n] calls of a public function, one after the other. *)
Fixpoint repeat_call (n : nat) (m : Exec unit) : Exec unit :=
  match n with
  | O => mret tt
  | S n' => m ;; repeat_call n' m
  end.

Section Observations.
Context `{Environment}.

Definition succeeded (tx : Tx) (w : World) : bool :=
  match snd (process tx w) with
  | Done _ => true
  | Reverted _ => false
  end.

Definition is_vote_by (voter : AztecAddress) (tx : Tx) : bool :=
  match tx_entry tx with
  | entry_cast_vote _ => bool_decide (tx_sender tx = voter)
  | _ => false
  end.

(** How many [cast_vote] transactions of [voter] succeed along an
    execution. *)
Fixpoint successes (voter : AztecAddress) (txs : list Tx) (w : World) : nat :=
  match txs with
  | [] => 0%nat
  | tx :: txs' =>
      ((if is_vote_by voter tx && succeeded tx w then 1 else 0)
       + successes voter txs' (step tx w))%nat
  end.

Definition votes_for (candidate : Field) (tx : Tx) : bool :=
  match tx_entry tx with
  | entry_cast_vote c | entry_add_to_tally_public c =>
      bool_decide (c = candidate)
  | _ => false
  end.

(** How many transactions that vote for [candidate] succeed along an
    execution. *)
Fixpoint accepted (candidate : Field) (txs : list Tx) (w : World) : nat :=
  match txs with
  | [] => 0%nat
  | tx :: txs' =>
      ((if votes_for candidate tx && succeeded tx w then 1 else 0)
       + accepted candidate txs' (step tx w))%nat
  end.
End Observations.

(** * Properties *)

(** ** The functions of the contract, one equation each *)

Ltac exec_unfold :=
  unfold constructor, add_to_tally_public, internal, end_vote, get_vote,
    get_vote_ended,
    get_admin, get_active_at_block, admin_read, admin_write, vote_ended_read,
    vote_ended_write, tally_at_read, tally_at_write,
    active_at_block_initialize, active_at_block_read, assert_, mbind,
    Exec_bind, bind, mret, Exec_ret, ret in *.

Lemma end_vote_eq (context : CallContext) (s : Storage) :
  end_vote context s =
  if bool_decide (admin s = msg_sender context)
  then (set_vote_ended true s, Done tt)
  else (s, Reverted Unauthorized).
Proof. exec_unfold. by case_bool_decide. Qed.

Lemma add_to_tally_public_eq (context : CallContext) (candidate : Field)
    (s : Storage) :
  add_to_tally_public context candidate s =
  if bool_decide (msg_sender context = this_address context)
  then if vote_ended s
       then (s, Reverted VotingEnded)
       else (set_tally candidate (Fr.add (votes s candidate) 1) s, Done tt)
  else (s, Reverted InternalOnly).
Proof.
  unfold votes. exec_unfold. case_bool_decide; [|done].
  by destruct (vote_ended s).
Qed.

Lemma constructor_eq (context : CallContext) (a : AztecAddress) (s : Storage) :
  snd (constructor context a s) =
    match active_at_block s with
    | Some _ => Reverted ImmutableInitialized
    | None => Done tt
    end /\
  (active_at_block s = None ->
   fst (constructor context a s) =
     {| admin := a; tally := tally s; vote_ended := false;
        active_at_block := Some (block_number context) |}).
Proof.
  exec_unfold. simpl. destruct (active_at_block s) eqn:E; simpl.
  - split; [done|]. intros; discriminate.
  - done.
Qed.

Lemma votes_set_tally (s : Storage) (c c' v : Field) :
  votes (set_tally c v s) c' = if decide (c = c') then v else votes s c'.
Proof.
  unfold votes, set_tally. exec_unfold. simpl.
  rewrite lookup_insert. by case_decide.
Qed.

Lemma Fr_add_small (v : Z) : 0 <= v < Fr.modulus - 1 -> Fr.add v 1 = v + 1.
Proof. intros Hv. unfold Fr.add. apply Z.mod_small. lia. Qed.

Lemma Fr_add_wrap : Fr.add (Fr.modulus - 1) 1 = 0.
Proof. reflexivity. Qed.

Section Properties.
Context `{Environment}.

(** ** What the private function leaves in its context *)

Lemma cast_vote_nullifiers (context : PrivateContext) (candidate : Field) :
  nullifiers (cast_vote context candidate) =
  nullifiers context ++ [vote_nullifier context].
Proof. reflexivity. Qed.

Lemma cast_vote_requests (context : PrivateContext) (candidate : Field) :
  public_call_requests (cast_vote context candidate) =
  public_call_requests context ++
  [ {| request_sender := this_address (call_context context);
       request_target := this_address (call_context context);
       request_call := call_add_to_tally_public candidate |} ].
Proof. reflexivity. Qed.

(** The call [cast_vote] stages passes the [internal] check, so it fails
    exactly when voting has ended. *)
Lemma staged_call_eq (w : World) (voter : AztecAddress) (blk : Z)
    (candidate : Field) :
  let private :=
    cast_vote {| call_context := tx_context (mkTx voter blk
                                   (entry_cast_vote candidate)) w;
                 nullifiers := []; public_call_requests := [] |}
              candidate in
  run_calls blk (public_call_requests private) (storage w) =
  if vote_ended (storage w)
  then (storage w, Reverted VotingEnded)
  else (set_tally candidate (Fr.add (votes (storage w) candidate) 1)
          (storage w), Done tt).
Proof.
  simpl. unfold run_call; simpl.
  unfold mbind, Exec_bind, bind. rewrite add_to_tally_public_eq; simpl.
  rewrite bool_decide_eq_true_2 by done.
  by destruct (vote_ended (storage w)).
Qed.

(** ** The host, one equation per entry point *)

Lemma process_cast_vote_eq (w : World) (voter : AztecAddress) (blk : Z)
    (candidate : Field) :
  initialized w = true ->
  process (mkTx voter blk (entry_cast_vote candidate)) w =
  if decide (nullifier_of voter w ∈ nullifier_set w)
  then (w, Reverted DuplicateVote)
  else if vote_ended (storage w)
  then (w, Reverted VotingEnded)
  else ({| address := address w;
           storage := set_tally candidate
                        (Fr.add (votes (storage w) candidate) 1) (storage w);
           nullifier_set := {[ nullifier_of voter w ]} ∪ nullifier_set w;
           initialized := true |}, Done tt).
Proof.
  intros Hinit. unfold process. cbn [tx_entry]. rewrite Hinit. cbn [negb].
  cbv zeta. rewrite staged_call_eq. rewrite cast_vote_nullifiers.
  cbn [nullifiers app insert_all]. unfold insert_if_absent.
  change (vote_nullifier _) with (nullifier_of voter w).
  destruct (decide (nullifier_of voter w ∈ nullifier_set w)); [done|].
  by destruct (vote_ended (storage w)).
Qed.

Lemma process_end_vote_eq (w : World) (sender : AztecAddress) (blk : Z) :
  initialized w = true ->
  process (mkTx sender blk entry_end_vote) w =
  if bool_decide (admin (storage w) = sender)
  then ({| address := address w; storage := set_vote_ended true (storage w);
           nullifier_set := nullifier_set w; initialized := true |}, Done tt)
  else (w, Reverted Unauthorized).
Proof.
  intros Hinit. unfold process. cbn [tx_entry]. rewrite Hinit. cbn [negb].
  cbv zeta. rewrite end_vote_eq. cbn [tx_context msg_sender tx_sender].
  by destruct (bool_decide (admin (storage w) = sender)).
Qed.

(** A failed transaction leaves the world as it was. *)
Lemma settle_reverted (w w' : World) ns init r f :
  settle w ns init r = (w', Reverted f) -> w' = w.
Proof. destruct r as [s' [[]|f']]; simpl; congruence. Qed.

Lemma process_reverted (tx : Tx) (w w' : World) (f : Failure) :
  process tx w = (w', Reverted f) -> w' = w.
Proof.
  unfold process. destruct (tx_entry tx); cbv zeta;
    destruct (initialized w); cbn [negb];
    repeat match goal with
           | |- context [insert_all ?l ?ns] => destruct (insert_all l ns)
           end;
    first [ by inversion 1 | apply settle_reverted ].
Qed.

Lemma process_add_to_tally_eq (w : World) (sender : AztecAddress) (blk : Z)
    (candidate : Field) :
  initialized w = true ->
  process (mkTx sender blk (entry_add_to_tally_public candidate)) w =
  if bool_decide (sender = address w)
  then if vote_ended (storage w)
       then (w, Reverted VotingEnded)
       else ({| address := address w;
                storage := set_tally candidate
                  (Fr.add (votes (storage w) candidate) 1) (storage w);
                nullifier_set := nullifier_set w;
                initialized := true |}, Done tt)
  else (w, Reverted InternalOnly).
Proof.
  intros Hinit. unfold process. cbn [tx_entry]. rewrite Hinit. cbn [negb].
  cbv zeta. rewrite add_to_tally_public_eq.
  cbn [tx_context msg_sender this_address tx_sender].
  destruct (bool_decide (sender = address w)); [|done].
  by destruct (vote_ended (storage w)).
Qed.

Lemma process_constructor_eq (w : World) (sender : AztecAddress) (blk : Z)
    (a : AztecAddress) :
  process (mkTx sender blk (entry_constructor a)) w =
  if initialized w then (w, Reverted AlreadyInitialized)
  else match active_at_block (storage w) with
       | Some _ => (w, Reverted ImmutableInitialized)
       | None =>
           ({| address := address w;
               storage := {| admin := a; tally := tally (storage w);
                             vote_ended := false;
                             active_at_block := Some blk |};
               nullifier_set := nullifier_set w;
               initialized := true |}, Done tt)
       end.
Proof.
  unfold process. cbn [tx_entry]. cbv zeta.
  destruct (initialized w); [done|].
  pose proof (constructor_eq (tx_context (mkTx sender blk
                (entry_constructor a)) w) a (storage w)) as [Hs Hf].
  destruct (constructor _ a (storage w)) as [s' o]. simpl in Hs, Hf.
  destruct (active_at_block (storage w)).
  - by subst o.
  - subst o. by rewrite Hf.
Qed.

(** ** What one transaction can do to a world *)

Lemma step_effect (tx : Tx) (w : World) : Effect w (step tx w).
Proof.
  unfold step. destruct tx as [sender blk []].
  - rewrite process_constructor_eq.
    destruct (initialized w) eqn:Hi; [by apply effect_none|].
    destruct (active_at_block (storage w)); [by apply effect_none|].
    by eapply effect_construct.
  - destruct (initialized w) eqn:Hi.
    + rewrite process_cast_vote_eq by done.
      destruct (decide _); [by apply effect_none|].
      destruct (vote_ended (storage w)) eqn:He; [by apply effect_none|].
      eapply effect_vote; [done|done| |done]. set_solver.
    + unfold process. cbn [tx_entry]. rewrite Hi. by apply effect_none.
  - destruct (initialized w) eqn:Hi.
    + rewrite process_add_to_tally_eq by done.
      destruct (bool_decide _); [|by apply effect_none].
      destruct (vote_ended (storage w)) eqn:He; [by apply effect_none|].
      by eapply effect_vote.
    + unfold process. cbn [tx_entry]. rewrite Hi. by apply effect_none.
  - destruct (initialized w) eqn:Hi.
    + rewrite process_end_vote_eq by done.
      destruct (bool_decide _); [|by apply effect_none].
      by eapply effect_end.
    + unfold process. cbn [tx_entry]. rewrite Hi. by apply effect_none.
Qed.

(** Case analysis on what [tx] did to [w]. *)
Ltac effect_cases tx w :=
  let HE := fresh "HE" in
  pose proof (step_effect tx w) as HE; revert HE;
  generalize (step tx w); intros ? []; intros; subst; simpl.

Lemma step_address (tx : Tx) (w : World) : address (step tx w) = address w.
Proof.
  effect_cases tx w; done.
Qed.

Lemma step_initialized (tx : Tx) (w : World) :
  initialized w = true -> initialized (step tx w) = true.
Proof.
  effect_cases tx w; done.
Qed.

Lemma step_nullifiers (tx : Tx) (w : World) :
  nullifier_set w ⊆ nullifier_set (step tx w).
Proof.
  effect_cases tx w; done.
Qed.

Lemma run_address (txs : list Tx) (w : World) :
  address (run txs w) = address w.
Proof.
  revert w. induction txs as [|tx txs IH]; intros w; simpl; [done|].
  by rewrite IH, step_address.
Qed.

Lemma run_initialized (txs : list Tx) (w : World) :
  initialized w = true -> initialized (run txs w) = true.
Proof.
  revert w. induction txs as [|tx txs IH]; intros w Hi; simpl; [done|].
  by apply IH, step_initialized.
Qed.

Lemma run_nullifiers (txs : list Tx) (w : World) :
  nullifier_set w ⊆ nullifier_set (run txs w).
Proof.
  revert w. induction txs as [|tx txs IH]; intros w; simpl; [done|].
  etrans; [apply (step_nullifiers tx)|apply IH].
Qed.

(** ** Claims about casting a vote *)

(** C1. When the public call staged by [cast_vote] fails, the transaction is
    rolled back as a whole: the world after it is the world before it, so the
    nullifier put in during the private phase is gone again and the tally and
    every other slot are as they were.  With voting ended the staged call
    fails with [VotingEnded], and that is the failure of the transaction of
    a voter whose nullifier was fresh. *)
Theorem failed_staged_call_rolls_back (w : World) (voter : AztecAddress)
    (blk : Z) (candidate : Field) :
  let tx := mkTx voter blk (entry_cast_vote candidate) in
  let private :=
    cast_vote {| call_context := tx_context tx w; nullifiers := [];
                 public_call_requests := [] |} candidate in
  let staged := run_calls blk (public_call_requests private) (storage w) in
  (vote_ended (storage w) = true -> snd staged = Reverted VotingEnded) /\
  (forall f, snd staged = Reverted f ->
     step tx w = w /\
     exists f', snd (process tx w) = Reverted f' /\
       (initialized w = true ->
        nullifier_of voter w ∉ nullifier_set w ->
        insert_all (nullifiers private) (nullifier_set w) =
          Some ({[ nullifier_of voter w ]} ∪ nullifier_set w) /\
        f' = f)).
Proof.
  cbv zeta. rewrite staged_call_eq. split.
  - by intros ->.
  - intros f Hf. destruct (vote_ended (storage w)) eqn:He; [|done].
    injection Hf as <-.
    destruct (initialized w) eqn:Hi.
    + unfold step. rewrite process_cast_vote_eq by done.
      rewrite cast_vote_nullifiers. cbn [nullifiers app insert_all].
      unfold insert_if_absent.
      change (vote_nullifier _) with (nullifier_of voter w).
      destruct (decide (nullifier_of voter w ∈ nullifier_set w)).
      * split; [done|]. exists DuplicateVote. split; [done|]. by intros.
      * rewrite He. split; [done|]. exists VotingEnded. by split.
    + unfold step, process. cbn [tx_entry]. rewrite Hi. cbn [negb fst snd].
      split; [done|]. exists NotInitialized. split; [done|]. by intros.
Qed.

(** C2. The nullifier [cast_vote] pushes is a function of the caller and of
    the address of the ballot alone: two runs by the same caller on the same
    ballot push the same nullifier, whatever the candidate, the block number
    and the effects already in the context. *)
Theorem nullifier_independent_of_candidate (voter ballot : AztecAddress)
    (blk1 blk2 : Z) (ns1 ns2 : list Field)
    (rs1 rs2 : list PublicCallRequest) (candidate1 candidate2 : Field) :
  exists n : Field,
    nullifiers (cast_vote {| call_context := mkCall voter ballot blk1;
                             nullifiers := ns1;
                             public_call_requests := rs1 |} candidate1)
      = ns1 ++ [n] /\
    nullifiers (cast_vote {| call_context := mkCall voter ballot blk2;
                             nullifiers := ns2;
                             public_call_requests := rs2 |} candidate2)
      = ns2 ++ [n].
Proof.
  exists (pedersen_hash
            [to_field voter;
             request_nsk_app ballot (hash (npk_m (get_public_keys voter)))]).
  split; reflexivity.
Qed.

Lemma vote_success_nullifier (w w' : World) (voter : AztecAddress) (blk : Z)
    (candidate : Field) :
  process (mkTx voter blk (entry_cast_vote candidate)) w = (w', Done tt) ->
  initialized w = true /\
  (nullifier_of voter w ∉ nullifier_set w) /\
  vote_ended (storage w) = false /\
  w' = {| address := address w;
          storage := set_tally candidate
                       (Fr.add (votes (storage w) candidate) 1) (storage w);
          nullifier_set := {[ nullifier_of voter w ]} ∪ nullifier_set w;
          initialized := true |}.
Proof.
  destruct (initialized w) eqn:Hi.
  - rewrite process_cast_vote_eq by done.
    destruct (decide _); [done|].
    destruct (vote_ended (storage w)); [done|].
    by intros [= <-].
  - unfold process. cbn [tx_entry]. by rewrite Hi.
Qed.

(** C3. Once a voter has cast a vote, every later [cast_vote] of that voter,
    for any candidate and after any transactions in between, fails with
    [DuplicateVote] at the insertion of the nullifier and leaves the world,
    and with it every [get_vote] value, unchanged. *)
Theorem second_vote_rejected (w w1 : World) (voter : AztecAddress)
    (blk1 blk2 : Z) (candidate1 candidate2 : Field) (txs : list Tx) :
  process (mkTx voter blk1 (entry_cast_vote candidate1)) w = (w1, Done tt) ->
  let w2 := run txs w1 in
  let private :=
    cast_vote {| call_context :=
                   tx_context (mkTx voter blk2 (entry_cast_vote candidate2))
                              w2;
                 nullifiers := []; public_call_requests := [] |}
              candidate2 in
  insert_all (nullifiers private) (nullifier_set w2) = None /\
  process (mkTx voter blk2 (entry_cast_vote candidate2)) w2 =
    (w2, Reverted DuplicateVote) /\
  forall c, votes (storage (step (mkTx voter blk2
                               (entry_cast_vote candidate2)) w2)) c =
            votes (storage w2) c.
Proof.
  intros Hvote. cbv zeta.
  apply vote_success_nullifier in Hvote as (Hi & _ & _ & ->).
  set (w1 := {| address := address w |}).
  assert (Hin : nullifier_of voter (run txs w1) ∈ nullifier_set (run txs w1)).
  { apply (run_nullifiers txs w1). unfold nullifier_of.
    rewrite run_address. subst w1. simpl. set_solver. }
  assert (Hproc : process (mkTx voter blk2 (entry_cast_vote candidate2))
                    (run txs w1) = (run txs w1, Reverted DuplicateVote)).
  { rewrite process_cast_vote_eq by (by apply run_initialized).
    by destruct (decide _). }
  split_and!.
  - rewrite cast_vote_nullifiers. cbn [nullifiers app insert_all].
    unfold insert_if_absent.
    change (vote_nullifier _) with (nullifier_of voter (run txs w1)).
    by destruct (decide _).
  - done.
  - intros c. unfold step. by rewrite Hproc.
Qed.

(** C4. A successful vote for a candidate happens while voting is open and
    adds one to the count [get_vote] returns for that candidate, the count of
    a candidate never voted for starting at 0.  The addition is the one of
    [Field]: below the largest field element it is the integer successor.
    The count of every other candidate, the admin, the flag and the
    activation block are as before. *)
Theorem single_vote_accounting (w w' : World) (voter : AztecAddress)
    (blk : Z) (candidate : Field) :
  process (mkTx voter blk (entry_cast_vote candidate)) w = (w', Done tt) ->
  vote_ended (storage w) = false /\
  votes (storage w') candidate = Fr.add (votes (storage w) candidate) 1 /\
  (0 <= votes (storage w) candidate < Fr.modulus - 1 ->
   votes (storage w') candidate = votes (storage w) candidate + 1) /\
  (tally (storage w) !! candidate = None ->
   votes (storage w') candidate = 1) /\
  (forall c, c <> candidate ->
             votes (storage w') c = votes (storage w) c) /\
  admin (storage w') = admin (storage w) /\
  vote_ended (storage w') = vote_ended (storage w) /\
  active_at_block (storage w') = active_at_block (storage w).
Proof.
  intros Hvote.
  apply vote_success_nullifier in Hvote as (Hi & _ & He & ->). simpl.
  split_and!; try done.
  - rewrite votes_set_tally. by rewrite decide_True.
  - intros Hv. rewrite votes_set_tally, decide_True by done.
    by apply Fr_add_small.
  - intros Hnone. rewrite votes_set_tally, decide_True by done.
    unfold votes. exec_unfold. simpl. by rewrite Hnone.
  - intros c Hc. rewrite votes_set_tally. by rewrite decide_False.
Qed.

(** ** Claims about ending the vote *)

(** C5. [end_vote] succeeds exactly when the caller is the stored admin.
    Called by anyone else it fails with [Unauthorized] and the storage,
    the flag included, is what it was; called by the admin it sets the flag
    and writes nothing else. *)
Theorem end_vote_admin_only (context : CallContext) (s : Storage) :
  (snd (end_vote context s) = Done tt <-> msg_sender context = admin s) /\
  (msg_sender context <> admin s ->
   end_vote context s = (s, Reverted Unauthorized) /\
   get_vote_ended (fst (end_vote context s)) = get_vote_ended s) /\
  (msg_sender context = admin s ->
   end_vote context s = (set_vote_ended true s, Done tt) /\
   snd (get_vote_ended (fst (end_vote context s))) = Done true).
Proof.
  rewrite end_vote_eq. case_bool_decide as Ha; simpl.
  - split_and!; [done|congruence|done].
  - split_and!; [|done|congruence].
    split; [done|congruence].
Qed.

(** C9. The admin may call [end_vote] again after voting has ended: the call
    succeeds, writes [true] over [true], and the world is the same. *)
Theorem repeated_end_vote_succeeds (w : World) (blk : Z) :
  initialized w = true ->
  vote_ended (storage w) = true ->
  end_vote (tx_context (mkTx (admin (storage w)) blk entry_end_vote) w)
           (storage w) = (storage w, Done tt) /\
  process (mkTx (admin (storage w)) blk entry_end_vote) w = (w, Done tt).
Proof.
  intros Hi He.
  assert (Hs : set_vote_ended true (storage w) = storage w).
  { destruct (storage w) as [a t e b]. simpl in He. by subst e. }
  split.
  - rewrite end_vote_eq. cbn [tx_context msg_sender tx_sender].
    by rewrite bool_decide_eq_true_2, Hs.
  - rewrite process_end_vote_eq by done.
    rewrite bool_decide_eq_true_2 by done. rewrite Hs.
    destruct w; simpl in *; by subst.
Qed.

(** ** The flag along an execution *)

Lemma step_settled (tx : Tx) (w : World) : settled w -> settled (step tx w).
Proof.
  intros Hs. effect_cases tx w; unfold settled; simpl; done.
Qed.

Lemma step_flag (tx : Tx) (w : World) :
  settled w ->
  vote_ended (storage w) = true -> vote_ended (storage (step tx w)) = true.
Proof.
  intros Hs He. effect_cases tx w; try done.
  rewrite Hs in He; done.
Qed.

Lemma run_flag (txs : list Tx) (w : World) :
  settled w ->
  vote_ended (storage w) = true -> vote_ended (storage (run txs w)) = true.
Proof.
  revert w. induction txs as [|tx txs IH]; intros w Hs He; simpl; [done|].
  apply IH; [by apply step_settled|by apply step_flag].
Qed.

Lemma run_settled (txs : list Tx) (w : World) :
  settled w -> settled (run txs w).
Proof.
  revert w. induction txs as [|tx txs IH]; intros w Hs; simpl; [done|].
  by apply IH, step_settled.
Qed.

Lemma trace_head (txs : list Tx) (w : World) :
  exists ws, trace txs w = w :: ws.
Proof. destruct txs; simpl; eauto. Qed.

Lemma trace_edges (txs : list Tx) (w : World) :
  settled w ->
  edges true false (flags (trace txs w)) = 0%nat /\
  (edges false true (flags (trace txs w)) <= 1)%nat /\
  (vote_ended (storage w) = true ->
   edges false true (flags (trace txs w)) = 0%nat).
Proof.
  revert w. induction txs as [|tx txs IH]; intros w Hs; [simpl; lia|].
  destruct (IH (step tx w) (step_settled tx w Hs)) as (Hdown & Hup & Hup0).
  pose proof (step_flag tx w Hs) as Hflag.
  destruct (trace_head txs (step tx w)) as [ws Hws].
  cbn [trace]. rewrite Hws in *. cbn [flags map edges] in *.
  destruct (vote_ended (storage w)), (vote_ended (storage (step tx w)));
    simpl in *;
    first [ lia
          | specialize (Hup0 eq_refl); lia
          | by specialize (Hflag eq_refl) ].
Qed.

Lemma genesis_settled (addr : AztecAddress) (ns : gset Z) :
  settled (genesis addr ns).
Proof. by intros _. Qed.

(** C6. Construction leaves the flag [false]; along every execution from
    the undeployed ballot the flag goes from [false] to [true] at most once
    and never from [true] to [false]; once it is [true] it is [true] after
    every further sequence of transactions. *)
Theorem vote_ended_is_terminal (addr : AztecAddress) (ns : gset Z)
    (sender : AztecAddress) (blk : Z) (a : AztecAddress)
    (txs more : list Tx) :
  vote_ended (storage (step (mkTx sender blk (entry_constructor a))
                             (genesis addr ns))) = false /\
  (edges false true (flags (trace txs (genesis addr ns))) <= 1)%nat /\
  edges true false (flags (trace txs (genesis addr ns))) = 0%nat /\
  (vote_ended (storage (run txs (genesis addr ns))) = true ->
   vote_ended (storage (run more (run txs (genesis addr ns)))) = true).
Proof.
  pose proof (trace_edges txs _ (genesis_settled addr ns)) as (Hd & Hu & _).
  split_and!; [done|done|done|].
  apply run_flag, run_settled, genesis_settled.
Qed.

(** ** Claims about construction and the readers *)

(** C7. Constructing the undeployed ballot succeeds, and afterwards
    [get_admin] returns the admin given, [get_vote_ended] returns [false]
    and [get_active_at_block] returns the block number of the call. *)
Theorem constructor_initialises (addr : AztecAddress) (ns : gset Z)
    (sender : AztecAddress) (blk : Z) (a : AztecAddress) :
  exists w' : World,
    process (mkTx sender blk (entry_constructor a)) (genesis addr ns)
      = (w', Done tt) /\
    snd (get_admin (storage w')) = Done a /\
    snd (get_vote_ended (storage w')) = Done false /\
    snd (get_active_at_block (storage w')) = Done blk.
Proof. eexists. rewrite process_constructor_eq. simpl. done. Qed.

(** C8. The four readers return the value of their slot and the storage
    unchanged; [get_vote] on a candidate without an entry returns 0; two
    calls of [get_vote] in a row return the same value. *)
Theorem readers_are_pure (s : Storage) (candidate : Field) :
  get_vote candidate s = (s, Done (default 0 (tally s !! candidate))) /\
  get_vote_ended s = (s, Done (vote_ended s)) /\
  get_admin s = (s, Done (admin s)) /\
  get_active_at_block s = (s, Done (default 0 (active_at_block s))) /\
  (tally s !! candidate = None -> snd (get_vote candidate s) = Done 0) /\
  (first ← get_vote candidate; second ← get_vote candidate;
     mret (first, second)) s =
    (s, Done (votes s candidate, votes s candidate)).
Proof.
  split_and!; try reflexivity.
  exec_unfold. simpl. by intros ->.
Qed.

(** ** The tally under every operation *)

Lemma step_votes (tx : Tx) (w : World) (c : Field) :
  votes (storage (step tx w)) c = votes (storage w) c \/
  votes (storage (step tx w)) c = Fr.add (votes (storage w) c) 1.
Proof.
  effect_cases tx w; try by left.
  rewrite votes_set_tally. case_decide; subst; [by right|by left].
Qed.

Lemma step_tally_dom (tx : Tx) (w : World) :
  dom (tally (storage w)) ⊆ dom (tally (storage (step tx w))).
Proof.
  effect_cases tx w; try done.
  rewrite dom_insert. set_solver.
Qed.

(** C10, amended. Under every transaction a count either stays or is
    incremented by the addition of [Field]; so a count below the largest
    field element never decreases, and a count at the largest field
    element either stays or wraps to 0.  No transaction removes an entry of
    the tally, and no reader changes the storage. *)
Theorem tally_monotone_below_modulus (tx : Tx) (w : World) (c : Field) :
  let before := votes (storage w) c in
  let after := votes (storage (step tx w)) c in
  (after = before \/ after = Fr.add before 1) /\
  (before < Fr.modulus - 1 -> before <= after) /\
  (before = Fr.modulus - 1 -> after = before \/ after = 0) /\
  dom (tally (storage w)) ⊆ dom (tally (storage (step tx w))) /\
  fst (get_vote c (storage w)) = storage w /\
  fst (get_vote_ended (storage w)) = storage w /\
  fst (get_admin (storage w)) = storage w /\
  fst (get_active_at_block (storage w)) = storage w.
Proof.
  cbv zeta. pose proof (step_votes tx w c) as Hv.
  split_and!; try done.
  - intros Hlt. destruct Hv as [->| ->]; [lia|].
    unfold Fr.add.
    destruct (decide (0 <= votes (storage w) c)) as [Hnn|Hneg].
    + rewrite Z.mod_small by lia. lia.
    + pose proof (Z.mod_pos_bound (votes (storage w) c + 1) Fr.modulus).
      unfold Fr.modulus in *. lia.
  - intros Heq. destruct Hv as [->| ->]; [by left|right].
    rewrite Heq. apply Fr_add_wrap.
  - apply step_tally_dom.
Qed.
End Properties.

(** ** The claims on the small election *)

Section Examples.
Import Election.
#[local] Existing Instance toy_environment.

(** After the vote has ended, carol's vote fails with [VotingEnded] and the
    world, her unused nullifier included, is what it was. *)
Lemma failed_staged_call_rolls_back_witness :
  vote_ended (storage ended) = true /\
  process (vote carol 7) ended = (ended, Reverted VotingEnded).
Proof.
  split; [reflexivity|].
  destruct (failed_staged_call_rolls_back ended carol 6 7) as [Hfail Hroll].
  destruct (Hroll VotingEnded (Hfail eq_refl)) as [Hstep [f' [Hf' Hfresh]]].
  assert (Hnew : nullifier_of carol ended ∉ nullifier_set ended)
    by compute_done.
  destruct (Hfresh eq_refl Hnew) as [_ ->].
  rewrite (surjective_pairing (process (vote carol 7) ended)).
  exact (f_equal2 pair Hstep Hf').
Defined.

(** Alice has voted for 7; her vote for 9 after bob's vote is a duplicate. *)
Lemma second_vote_rejected_witness :
  process (vote alice 7) constructed =
    (step (vote alice 7) constructed, Done tt) /\
  process (vote alice 9) open = (open, Reverted DuplicateVote) /\
  votes (storage (step (vote alice 9) open)) 9 = 0.
Proof.
  assert (Hfirst : process (vote alice 7) constructed =
                   (step (vote alice 7) constructed, Done tt))
    by (vm_compute; reflexivity).
  destruct (second_vote_rejected constructed _ alice 6 6 7 9 [vote bob 7]
              Hfirst) as (_ & Hsecond & Hvotes).
  split_and!; [exact Hfirst|exact Hsecond|].
  etrans; [exact (Hvotes 9)|]. vm_compute. reflexivity.
Defined.

(** The first vote for candidate 7 takes its count from 0 to 1 and leaves the
    count of candidate 9 alone. *)
Lemma single_vote_accounting_witness :
  process (vote alice 7) constructed =
    (step (vote alice 7) constructed, Done tt) /\
  votes (storage constructed) 7 = 0 /\
  votes (storage (step (vote alice 7) constructed)) 7 = 1 /\
  votes (storage (step (vote alice 7) constructed)) 9 =
    votes (storage constructed) 9.
Proof.
  assert (Hfirst : process (vote alice 7) constructed =
                   (step (vote alice 7) constructed, Done tt))
    by (vm_compute; reflexivity).
  destruct (single_vote_accounting constructed _ alice 6 7 Hfirst)
    as (_ & _ & _ & Hlazy & Hother & _).
  split_and!; [exact Hfirst|reflexivity| |].
  - apply Hlazy. reflexivity.
  - apply Hother. discriminate.
Defined.

(** Alice may not end the vote; the admin may. *)
Lemma end_vote_admin_only_witness :
  end_vote (tx_context (close alice) open) (storage open) =
    (storage open, Reverted Unauthorized) /\
  end_vote (tx_context (close admin_id) open) (storage open) =
    (set_vote_ended true (storage open), Done tt).
Proof.
  destruct (end_vote_admin_only (tx_context (close alice) open)
              (storage open)) as (_ & Hother & _).
  destruct (end_vote_admin_only (tx_context (close admin_id) open)
              (storage open)) as (_ & _ & Hadmin).
  split.
  - apply Hother. discriminate.
  - apply Hadmin. reflexivity.
Defined.

(** Nothing reopens the ended election: not a second construction, a vote or
    another [end_vote]. *)
Lemma vote_ended_is_terminal_witness :
  vote_ended (storage ended) = true /\
  vote_ended (storage (run [construct; vote carol 7; close alice;
                            close admin_id] ended)) = true.
Proof.
  split; [reflexivity|].
  destruct (vote_ended_is_terminal ballot ∅ admin_id 5 admin_id
              [construct; vote alice 7; vote bob 7; close admin_id]
              [construct; vote carol 7; close alice; close admin_id])
    as (_ & _ & _ & Hterminal).
  apply Hterminal. reflexivity.
Defined.

(** Nobody voted for candidate 9. *)
Lemma readers_are_pure_witness :
  tally (storage open) !! 9 = None /\
  snd (get_vote 9 (storage open)) = Done 0.
Proof.
  split; [reflexivity|].
  destruct (readers_are_pure (storage open) 9) as (_ & _ & _ & _ & Hzero & _).
  apply Hzero. reflexivity.
Defined.

(** The admin ends the ended election once more. *)
Lemma repeated_end_vote_succeeds_witness :
  initialized ended = true /\
  vote_ended (storage ended) = true /\
  process (close admin_id) ended = (ended, Done tt).
Proof.
  split_and!; [reflexivity|reflexivity|].
  apply (repeated_end_vote_succeeds ended 8); reflexivity.
Defined.

(** A third vote for candidate 7 does not lower its count of 2. *)
Lemma tally_monotone_below_modulus_witness :
  votes (storage open) 7 = 2 /\
  votes (storage open) 7 <= votes (storage (step (vote carol 7) open)) 7.
Proof.
  split; [reflexivity|].
  destruct (tally_monotone_below_modulus (vote carol 7) open 7)
    as (_ & Hmono & _).
  apply Hmono. vm_compute. reflexivity.
Defined.

(** The scenario of section 8 of the specification, with alice, bob and carol
    for V1, V2 and V3. *)
Example concrete_scenario :
  let w1 := step (vote alice 7) constructed in
  let w2 := step (vote bob 7) w1 in
  let w3 := step (close admin_id) w2 in
  votes (storage w1) 7 = 1 /\
  votes (storage w2) 7 = 2 /\
  process (vote alice 9) w2 = (w2, Reverted DuplicateVote) /\
  votes (storage w2) 9 = 0 /\
  snd (get_vote_ended (storage w3)) = Done true /\
  process (vote carol 7) w3 = (w3, Reverted VotingEnded) /\
  votes (storage w3) 7 = 2.
Proof. cbv zeta. split_and!; vm_compute; reflexivity. Qed.

(** C10 as stated fails at the largest field element: a vote that succeeds
    takes the count of candidate 7 from [Fr.modulus - 1] to 0. *)
Lemma tally_decreases_at_wrap :
  snd (process (vote alice 7) full) = Done tt /\
  votes (storage full) 7 = Fr.modulus - 1 /\
  votes (storage (step (vote alice 7) full)) 7 = 0 /\
  ~ (votes (storage full) 7 <= votes (storage (step (vote alice 7) full)) 7).
Proof.
  split_and!; [vm_compute; reflexivity ..|].
  vm_compute. intros Hle. apply Hle. reflexivity.
Qed.
End Examples.

(** ** The wrap of a count is reachable

    With an environment that gives every voter a nullifier of their own, the
    count of a candidate reaches the largest field element by votes alone, and
    the next vote takes it to 0. *)

Section Wrap.
Import Election.
#[local] Existing Instance plain_environment.

Lemma run_app (txs1 txs2 : list Tx) (w : World) :
  run (txs1 ++ txs2) w = run txs2 (run txs1 w).
Proof.
  revert w. induction txs1 as [|tx txs1 IH]; intros w; [done|].
  cbn [app run]. apply IH.
Qed.

Lemma crowded_vote (n : nat) (w : World) :
  Z.of_nat n < Fr.modulus - 1 ->
  crowded n w ->
  process (vote (mkAddress (Z.of_nat n)) 7) w =
    (step (vote (mkAddress (Z.of_nat n)) 7) w, Done tt) /\
  crowded (S n) (step (vote (mkAddress (Z.of_nat n)) 7) w).
Proof.
  intros Hn (Ha & Hi & He & Hv & Hns). unfold step, vote.
  rewrite process_cast_vote_eq by done.
  change (nullifier_of (mkAddress (Z.of_nat n)) w) with (Z.of_nat n).
  destruct (decide (Z.of_nat n ∈ nullifier_set w)) as [Hin|Hout].
  { apply Hns in Hin. lia. }
  rewrite He. cbn [fst]. split; [done|].
  unfold crowded. cbn [address storage initialized nullifier_set].
  split_and!; try done.
  - rewrite votes_set_tally, decide_True by done.
    rewrite Hv, Fr_add_small by lia. lia.
  - intros k. rewrite elem_of_union, elem_of_singleton, Hns. lia.
Qed.

Lemma crowd_crowded (n : nat) :
  Z.of_nat n <= Fr.modulus - 1 ->
  crowded n (run (crowd n) constructed).
Proof.
  induction n as [|n IH]; intros Hn.
  - unfold crowded. split_and!; try reflexivity.
    intros k. change (nullifier_set _) with (∅ : gset Z).
    rewrite elem_of_empty. lia.
  - unfold crowd. rewrite seq_S, map_app, run_app. cbn [map run plus].
    apply crowded_vote; [lia|]. apply IH. lia.
Qed.

Lemma wrap_after (n : nat) :
  Z.of_nat n = Fr.modulus - 1 ->
  let w := run (construct :: crowd n) (genesis ballot ∅) in
  let last := vote (mkAddress (Fr.modulus - 1)) 7 in
  votes (storage w) 7 = Fr.modulus - 1 /\
  snd (process last w) = Done tt /\
  votes (storage (step last w)) 7 = 0.
Proof.
  intros Hn. cbv zeta.
  change (run (construct :: crowd n) (genesis ballot ∅))
    with (run (crowd n) constructed).
  destruct (crowd_crowded n) as (Ha & Hi & He & Hv & Hns); [lia|].
  rewrite <- Hn. unfold step, vote.
  rewrite process_cast_vote_eq by done.
  change (nullifier_of (mkAddress (Z.of_nat n)) _) with (Z.of_nat n).
  destruct (decide _) as [Hin|Hout].
  { apply Hns in Hin. lia. }
  rewrite He. cbn [fst snd storage].
  rewrite votes_set_tally, decide_True by done.
  split_and!; [done|done|].
  rewrite Hv, Hn. apply Fr_add_wrap.
Qed.

Lemma wrap_reachable :
  exists txs : list Tx,
    let w := run txs (genesis ballot ∅) in
    let last := vote (mkAddress (Fr.modulus - 1)) 7 in
    votes (storage w) 7 = Fr.modulus - 1 /\
    snd (process last w) = Done tt /\
    votes (storage (step last w)) 7 = 0.
Proof.
  exists (construct :: crowd (Z.to_nat (Fr.modulus - 1))).
  apply wrap_after. apply Z2Nat.id. unfold Fr.modulus. lia.
Qed.
End Wrap.

(** * Further properties of the contract *)

Section Further.
Context `{Environment}.

(** Case analysis on what [tx] did to [w], as in the section above. *)
Ltac effect_cases tx w :=
  let HE := fresh "HE" in
  pose proof (step_effect tx w) as HE; revert HE;
  generalize (step tx w); intros ? []; intros; subst; simpl.

(** ** Slots that nothing writes after construction *)

Lemma step_admin (tx : Tx) (w : World) :
  initialized w = true ->
  admin (storage (step tx w)) = admin (storage w) /\
  active_at_block (storage (step tx w)) = active_at_block (storage w).
Proof. intros Hi. effect_cases tx w; try done. congruence. Qed.

Lemma run_admin (txs : list Tx) (w : World) :
  initialized w = true ->
  admin (storage (run txs w)) = admin (storage w) /\
  active_at_block (storage (run txs w)) = active_at_block (storage w).
Proof.
  revert w. induction txs as [|tx txs IH]; intros w Hi; simpl; [done|].
  destruct (IH (step tx w) (step_initialized tx w Hi)) as [-> ->].
  by apply step_admin.
Qed.

(** X1. After construction no sequence of transactions changes what
    [get_admin] and [get_active_at_block] return: the admin given to the
    constructor and the block of the construction. *)
Theorem admin_and_activation_fixed (addr : AztecAddress) (ns : gset Z)
    (sender : AztecAddress) (blk : Z) (a : AztecAddress) (txs : list Tx) :
  let w := run txs (step (mkTx sender blk (entry_constructor a))
                         (genesis addr ns)) in
  snd (get_admin (storage w)) = Done a /\
  snd (get_active_at_block (storage w)) = Done blk.
Proof.
  cbv zeta. unfold step at 1 2. rewrite process_constructor_eq.
  cbn [genesis initialized storage empty_storage active_at_block fst].
  exec_unfold. cbn [snd].
  match goal with
  | |- context [run txs ?w0] =>
      destruct (run_admin txs w0 eq_refl) as [-> ->]
  end.
  done.
Qed.

(** ** The ballot after the end of the vote *)

Lemma set_vote_ended_same (s : Storage) :
  vote_ended s = true -> set_vote_ended true s = s.
Proof. destruct s as [a t e b]. simpl. by intros ->. Qed.

Lemma step_ended (tx : Tx) (w : World) :
  initialized w = true -> vote_ended (storage w) = true -> step tx w = w.
Proof.
  intros Hi He. effect_cases tx w; try done; try congruence.
  rewrite set_vote_ended_same by done.
  destruct w; simpl in *; by subst.
Qed.

(** X2. A ballot whose vote has ended is final: every transaction either
    fails or is an [end_vote] of the admin that changes nothing, so after
    any sequence of transactions the storage (every count included) and the
    nullifier set are what they were. *)
Theorem ended_ballot_is_final (w : World) (txs : list Tx) :
  initialized w = true ->
  vote_ended (storage w) = true ->
  run txs w = w.
Proof.
  intros Hi He. induction txs as [|tx txs IH]; simpl; [done|].
  by rewrite step_ended.
Qed.

(** X3. Only the admin ends the vote: along an execution in which no
    [end_vote] is sent by the stored admin, an open ballot stays open. *)
Theorem only_admin_ends (w : World) (txs : list Tx) :
  initialized w = true ->
  vote_ended (storage w) = false ->
  Forall (fun tx => tx_entry tx = entry_end_vote ->
                    tx_sender tx <> admin (storage w)) txs ->
  vote_ended (storage (run txs w)) = false.
Proof.
  revert w. induction txs as [|tx txs IH]; intros w Hi He Hall; [done|].
  apply Forall_cons in Hall as [Htx Hall]. simpl.
  destruct (step_admin tx w Hi) as [Ha _].
  apply IH; [by apply step_initialized| |by rewrite Ha].
  unfold step. destruct tx as [sender blk [a|c|c|]]; simpl in Htx.
  - rewrite process_constructor_eq, Hi. done.
  - rewrite process_cast_vote_eq by done.
    destruct (decide _); [done|]. rewrite He. done.
  - rewrite process_add_to_tally_eq by done.
    destruct (bool_decide _); [|done]. rewrite He. done.
  - rewrite process_end_vote_eq by done.
    rewrite bool_decide_eq_false_2; [done|].
    intros Heq. by apply Htx.
Qed.

(** ** When a vote is accepted *)

(** X4. The outcome of a [cast_vote] transaction: it succeeds exactly on a
    constructed ballot that is open and does not hold the voter's nullifier;
    a voter whose nullifier is there is told [DuplicateVote] whether or not
    the vote has ended, and [VotingEnded] is the answer only to a voter who
    has not voted. *)
Theorem cast_vote_outcome (w : World) (voter : AztecAddress) (blk : Z)
    (candidate : Field) :
  snd (process (mkTx voter blk (entry_cast_vote candidate)) w) =
  if negb (initialized w) then Reverted NotInitialized
  else if decide (nullifier_of voter w ∈ nullifier_set w)
  then Reverted DuplicateVote
  else if vote_ended (storage w) then Reverted VotingEnded
  else Done tt.
Proof.
  destruct (initialized w) eqn:Hi; cbn [negb].
  - rewrite process_cast_vote_eq by done.
    destruct (decide _); [done|]. by destruct (vote_ended (storage w)).
  - unfold process. cbn [tx_entry]. by rewrite Hi.
Qed.

Lemma nullifier_of_step (voter : AztecAddress) (tx : Tx) (w : World) :
  nullifier_of voter (step tx w) = nullifier_of voter w.
Proof. unfold nullifier_of. by rewrite step_address. Qed.

Lemma successes_spent (voter : AztecAddress) (txs : list Tx) (w : World) :
  nullifier_of voter w ∈ nullifier_set w -> successes voter txs w = 0%nat.
Proof.
  revert w. induction txs as [|tx txs IH]; intros w Hin; [done|].
  cbn [successes]. rewrite IH.
  - destruct tx as [sender blk [a|c|c|]]; try done.
    unfold is_vote_by, succeeded. cbn [tx_entry tx_sender].
    case_bool_decide as Hs; [subst sender|done].
    rewrite cast_vote_outcome.
    destruct (initialized w); [|done]. cbn [negb].
    by destruct (decide _).
  - rewrite nullifier_of_step. by apply (step_nullifiers tx).
Qed.

(** X5. One voter, one vote: in every execution, from any world, at most one
    [cast_vote] transaction of a given voter succeeds. *)
Theorem one_vote_per_voter (voter : AztecAddress) (txs : list Tx)
    (w : World) :
  (successes voter txs w <= 1)%nat.
Proof.
  revert w. induction txs as [|tx txs IH]; intros w; [simpl; lia|].
  cbn [successes].
  destruct (is_vote_by voter tx && succeeded tx w) eqn:Hok;
    [|specialize (IH (step tx w)); lia].
  apply andb_prop in Hok as [Hby Hsucc].
  destruct tx as [sender blk [a|c|c|]]; try done.
  unfold is_vote_by in Hby. cbn [tx_entry tx_sender] in Hby.
  apply bool_decide_eq_true_1 in Hby as ->.
  unfold succeeded in Hsucc.
  destruct (process (mkTx voter blk (entry_cast_vote c)) w) as [w' o] eqn:Hp.
  destruct o as [[]|]; [|done].
  pose proof Hp as Hp'.
  apply vote_success_nullifier in Hp' as (_ & _ & _ & Hw').
  rewrite successes_spent; [lia|].
  unfold step. rewrite Hp. cbn [fst]. subst w'.
  unfold nullifier_of. cbn [address nullifier_set]. set_solver.
Qed.
(** ** The order of votes *)

Lemma set_tally_comm (s : Storage) (c1 c2 : Field) :
  set_tally c2 (Fr.add (votes (set_tally c1 (Fr.add (votes s c1) 1) s) c2) 1)
            (set_tally c1 (Fr.add (votes s c1) 1) s) =
  set_tally c1 (Fr.add (votes (set_tally c2 (Fr.add (votes s c2) 1) s) c1) 1)
            (set_tally c2 (Fr.add (votes s c2) 1) s).
Proof.
  rewrite !votes_set_tally. unfold set_tally. simpl.
  destruct (decide (c1 = c2)) as [->|Hne].
  - by rewrite decide_True.
  - rewrite (decide_False (P := c2 = c1)) by congruence.
    f_equal. by apply insert_insert_ne.
Qed.

(** X6. Two calls of [add_to_tally_public] in a row give the same result in
    either order, whether they fail (for the same reason, writing nothing)
    or succeed (each candidate one vote up, or the same candidate two). *)
Theorem add_to_tally_public_commutes (context : CallContext)
    (c1 c2 : Field) (s : Storage) :
  (add_to_tally_public context c1 ;; add_to_tally_public context c2) s =
  (add_to_tally_public context c2 ;; add_to_tally_public context c1) s.
Proof.
  unfold mbind, Exec_bind, bind. rewrite !add_to_tally_public_eq.
  destruct (bool_decide (msg_sender context = this_address context)) eqn:Hi;
    [|done].
  destruct (vote_ended s) eqn:He; [done|].
  rewrite !add_to_tally_public_eq, Hi. cbn [set_tally vote_ended]. rewrite He.
  f_equal. apply set_tally_comm.
Qed.

Lemma step_cast_vote_eq (w : World) (voter : AztecAddress) (blk : Z)
    (candidate n : Field) :
  n = nullifier_of voter w ->
  step (mkTx voter blk (entry_cast_vote candidate)) w =
  if initialized w && negb (bool_decide (n ∈ nullifier_set w))
     && negb (vote_ended (storage w))
  then {| address := address w;
          storage := set_tally candidate
                       (Fr.add (votes (storage w) candidate) 1) (storage w);
          nullifier_set := {[ n ]} ∪ nullifier_set w;
          initialized := true |}
  else w.
Proof.
  intros ->. unfold step. destruct (initialized w) eqn:Hi.
  - rewrite process_cast_vote_eq by done. cbn [andb].
    destruct (decide (nullifier_of voter w ∈ nullifier_set w)) as [Hin|Hout].
    + by rewrite bool_decide_eq_true_2.
    + rewrite bool_decide_eq_false_2 by done.
      by destruct (vote_ended (storage w)).
  - unfold process. cbn [tx_entry]. by rewrite Hi.
Qed.

(** X7. The votes of two voters with different nullifiers can be processed
    in either order: the world after both transactions, the tally and the
    nullifier set included, is the same. *)
Theorem votes_commute (w : World) (v1 v2 : AztecAddress) (blk1 blk2 : Z)
    (c1 c2 : Field) :
  nullifier_of v1 w <> nullifier_of v2 w ->
  run [mkTx v1 blk1 (entry_cast_vote c1); mkTx v2 blk2 (entry_cast_vote c2)] w
  = run [mkTx v2 blk2 (entry_cast_vote c2); mkTx v1 blk1 (entry_cast_vote c1)]
        w.
Proof.
  remember (nullifier_of v1 w) as n1 eqn:Hn1.
  remember (nullifier_of v2 w) as n2 eqn:Hn2.
  intros Hne. cbn [run].
  assert (Hin : forall n m (ns : gset Z), n <> m ->
            bool_decide (n ∈ {[ m ]} ∪ ns) = bool_decide (n ∈ ns)).
  { intros n m ns Hnm. apply bool_decide_ext.
    rewrite elem_of_union, elem_of_singleton. tauto. }
  rewrite (step_cast_vote_eq w v1 blk1 c1 n1 Hn1),
          (step_cast_vote_eq w v2 blk2 c2 n2 Hn2).
  destruct (initialized w) eqn:Hi, (vote_ended (storage w)) eqn:He,
           (bool_decide (n1 ∈ nullifier_set w)) eqn:E1,
           (bool_decide (n2 ∈ nullifier_set w)) eqn:E2;
    cbn [negb andb];
    rewrite (step_cast_vote_eq _ v1 blk1 c1 n1) by exact Hn1;
    rewrite (step_cast_vote_eq _ v2 blk2 c2 n2) by exact Hn2;
    cbn [address storage nullifier_set initialized];
    change (vote_ended (set_tally ?c ?v ?s)) with (vote_ended s);
    rewrite ?Hi, ?He; cbn [negb andb];
    rewrite ?(Hin n1 n2 _ Hne), ?(Hin n2 n1 _ (not_eq_sym Hne));
    rewrite ?E1, ?E2; cbn [negb andb]; try done.
  rewrite set_tally_comm. f_equal.
  apply set_eq. intros x. rewrite !elem_of_union. tauto.
Qed.

(** ** Many votes for one candidate *)

Lemma repeat_call_S (n : nat) (m : Exec unit) (s : Storage) :
  repeat_call (S n) m s =
  match m s with
  | (s', Done _) => repeat_call n m s'
  | (s', Reverted f) => (s', Reverted f)
  end.
Proof. reflexivity. Qed.

(** X8. [n + 1] calls of [add_to_tally_public] for a candidate on an open
    ballot, made by the contract itself, all succeed, and leave the count of
    the candidate at the old count plus [n + 1] modulo the field prime, the
    count of every other candidate and the other slots as they were. *)
Theorem tally_after_calls (context : CallContext) (candidate : Field)
    (n : nat) (s : Storage) :
  msg_sender context = this_address context ->
  vote_ended s = false ->
  let r := repeat_call (S n) (add_to_tally_public context candidate) s in
  snd r = Done tt /\
  votes (fst r) candidate =
    (votes s candidate + Z.of_nat (S n)) mod Fr.modulus /\
  (forall c, c <> candidate -> votes (fst r) c = votes s c) /\
  admin (fst r) = admin s /\ vote_ended (fst r) = false /\
  active_at_block (fst r) = active_at_block s.
Proof.
  intros Hself. cbv zeta. revert s.
  induction n as [|n IH]; intros s He;
    rewrite repeat_call_S, add_to_tally_public_eq, bool_decide_eq_true_2, He
      by done.
  - cbn [repeat_call]. unfold mret, Exec_ret, ret. cbn [fst snd].
    split_and!; try done.
    + by rewrite votes_set_tally, decide_True.
    + intros c Hc. by rewrite votes_set_tally, decide_False.
  - set (s1 := set_tally candidate (Fr.add (votes s candidate) 1) s).
    destruct (IH s1 He) as (Hd & Hv & Ho & Ha & Hf & Hb).
    split_and!; try done.
    + rewrite Hv. subst s1. rewrite votes_set_tally, decide_True by done.
      unfold Fr.add. rewrite Zplus_mod_idemp_l. f_equal. lia.
    + intros c Hc. rewrite Ho by done. subst s1.
      by rewrite votes_set_tally, decide_False.
Qed.
(** ** What a count counts *)

Lemma step_votes_eq (tx : Tx) (w : World) (c : Field) :
  votes (storage (step tx w)) c =
  if votes_for c tx && succeeded tx w
  then Fr.add (votes (storage w) c) 1
  else votes (storage w) c.
Proof.
  unfold step, succeeded, votes_for.
  destruct tx as [sender blk [a|c'|c'|]]; cbn [tx_entry].
  - cbn [andb]. rewrite process_constructor_eq.
    destruct (initialized w); [done|].
    by destruct (active_at_block (storage w)).
  - destruct (initialized w) eqn:Hi.
    + rewrite process_cast_vote_eq by done.
      destruct (decide _); [by rewrite andb_false_r|].
      destruct (vote_ended (storage w)); [by rewrite andb_false_r|].
      cbn [fst snd storage]. rewrite votes_set_tally, andb_true_r.
      destruct (decide (c' = c)) as [->|Hne];
        [by rewrite bool_decide_eq_true_2|by rewrite bool_decide_eq_false_2].
    + unfold process. cbn [tx_entry]. rewrite Hi. cbn.
      by rewrite andb_false_r.
  - destruct (initialized w) eqn:Hi.
    + rewrite process_add_to_tally_eq by done.
      destruct (bool_decide (sender = address w));
        [|by rewrite andb_false_r].
      destruct (vote_ended (storage w)); [by rewrite andb_false_r|].
      cbn [fst snd storage]. rewrite votes_set_tally, andb_true_r.
      destruct (decide (c' = c)) as [->|Hne];
        [by rewrite bool_decide_eq_true_2|by rewrite bool_decide_eq_false_2].
    + unfold process. cbn [tx_entry]. rewrite Hi. cbn.
      by rewrite andb_false_r.
  - cbn [andb]. destruct (initialized w) eqn:Hi.
    + rewrite process_end_vote_eq by done. by destruct (bool_decide _).
    + unfold process. cbn [tx_entry]. by rewrite Hi.
Qed.

Lemma run_votes (txs : list Tx) (w : World) (c : Field) :
  0 <= votes (storage w) c < Fr.modulus ->
  votes (storage (run txs w)) c =
    (votes (storage w) c + Z.of_nat (accepted c txs w)) mod Fr.modulus.
Proof.
  revert w. induction txs as [|tx txs IH]; intros w Hc.
  - cbn [run accepted]. rewrite Z.add_0_r. symmetry. by apply Z.mod_small.
  - cbn [run accepted]. rewrite IH; rewrite step_votes_eq.
    + destruct (votes_for c tx && succeeded tx w).
      * unfold Fr.add. rewrite Zplus_mod_idemp_l. f_equal. lia.
      * f_equal.
    + destruct (votes_for c tx && succeeded tx w); [|done].
      apply Z.mod_pos_bound. unfold Fr.modulus. lia.
Qed.

(** X9. From the undeployed ballot, the count of a candidate after any
    execution is the number of accepted transactions that voted for the
    candidate, modulo the field prime: no other transaction moves a count,
    and an accepted vote moves it by one. *)
Theorem count_is_accepted_votes (addr : AztecAddress) (ns : gset Z)
    (txs : list Tx) (c : Field) :
  votes (storage (run txs (genesis addr ns))) c =
    Z.of_nat (accepted c txs (genesis addr ns)) mod Fr.modulus.
Proof.
  rewrite run_votes; [done|].
  change (votes (storage (genesis addr ns)) c) with 0.
  unfold Fr.modulus. lia.
Qed.

(** ** The tests of the repository, for every input *)

Lemma construction_eq (addr : AztecAddress) (ns : gset Z)
    (deployer a : AztecAddress) (blk : Z) :
  step (mkTx deployer blk (entry_constructor a)) (genesis addr ns) =
  {| address := addr;
     storage := {| admin := a; tally := ∅; vote_ended := false;
                   active_at_block := Some blk |};
     nullifier_set := ns; initialized := true |}.
Proof. unfold step. by rewrite process_constructor_eq. Qed.

(** X10. [test_cast_vote] for every ballot, voter and candidate: on a ballot
    just constructed, the vote of a voter whose nullifier is not in the
    nullifier set is accepted and leaves the count of the candidate at 1 and
    every other count at 0. *)
Theorem first_vote_counts_one (addr : AztecAddress) (ns : gset Z)
    (deployer a voter : AztecAddress) (blk blk' : Z) (candidate : Field) :
  let w := step (mkTx deployer blk (entry_constructor a)) (genesis addr ns) in
  let tx := mkTx voter blk' (entry_cast_vote candidate) in
  nullifier_of voter w ∉ ns ->
  snd (process tx w) = Done tt /\
  votes (storage (step tx w)) candidate = 1 /\
  forall c, c <> candidate -> votes (storage (step tx w)) c = 0.
Proof.
  cbv zeta. rewrite construction_eq. intros Hfresh.
  unfold step. rewrite process_cast_vote_eq by done.
  cbn [nullifier_set]. rewrite decide_False by done.
  cbn [storage vote_ended fst snd]. split_and!; [done| |].
  - by rewrite votes_set_tally, decide_True.
  - intros c Hc. by rewrite votes_set_tally, decide_False.
Qed.

(** X11. [test_end_vote] for every ballot and every history: whatever
    transactions follow the construction, an [end_vote] of the admin named
    at construction succeeds and leaves the flag [true]. *)
Theorem admin_can_always_end (addr : AztecAddress) (ns : gset Z)
    (deployer a : AztecAddress) (blk blk' : Z) (txs : list Tx) :
  let w := run txs (step (mkTx deployer blk (entry_constructor a))
                         (genesis addr ns)) in
  snd (process (mkTx a blk' entry_end_vote) w) = Done tt /\
  snd (get_vote_ended (storage (step (mkTx a blk' entry_end_vote) w)))
    = Done true.
Proof.
  cbv zeta. rewrite construction_eq.
  match goal with
  | |- context [run txs ?w0] =>
      pose proof (run_initialized txs w0 eq_refl) as Hi;
      destruct (run_admin txs w0 eq_refl) as [Ha _];
      cbn [storage admin] in Ha; set (w := run txs w0) in *
  end.
  unfold step. rewrite process_end_vote_eq by done.
  rewrite bool_decide_eq_true_2 by done. done.
Qed.

(** ** Ways around [cast_vote] *)

(** X12. Nobody but the ballot itself adds to the tally: a transaction that
    calls [add_to_tally_public] directly, sent from any other address, fails
    and leaves the world as it was. *)
Theorem outsider_cannot_add_to_tally (w : World) (sender : AztecAddress)
    (blk : Z) (candidate : Field) :
  sender <> address w ->
  exists f, process (mkTx sender blk (entry_add_to_tally_public candidate)) w
            = (w, Reverted f).
Proof.
  intros Hout. destruct (initialized w) eqn:Hi.
  - rewrite process_add_to_tally_eq by done.
    rewrite bool_decide_eq_false_2 by done. by eexists.
  - unfold process. cbn [tx_entry]. rewrite Hi. by eexists.
Qed.

Lemma insert_all_twice (l : list Z) (n : Z) (ns : gset Z) :
  insert_all (l ++ [n; n]) ns = None.
Proof.
  revert ns. induction l as [|m l IH]; intros ns; cbn [app insert_all].
  - unfold insert_if_absent. destruct (decide (n ∈ ns)); [done|].
    rewrite decide_True; [done|].
    apply elem_of_union_l. by apply elem_of_singleton.
  - destruct (insert_if_absent m ns); [apply IH|done].
Qed.

(** X13. Voting twice inside one transaction does not work either: a
    private context in which [cast_vote] ran twice, for any two candidates,
    holds the same nullifier twice, and no nullifier set accepts it. *)
Theorem double_cast_rejected (context : PrivateContext) (c1 c2 : Field)
    (ns : gset Z) :
  nullifiers (cast_vote (cast_vote context c1) c2) =
    nullifiers context ++ [vote_nullifier context; vote_nullifier context] /\
  insert_all (nullifiers (cast_vote (cast_vote context c1) c2)) ns = None.
Proof.
  assert (Hn : nullifiers (cast_vote (cast_vote context c1) c2) =
               nullifiers context
               ++ [vote_nullifier context; vote_nullifier context]).
  { rewrite !cast_vote_nullifiers, <- app_assoc. reflexivity. }
  split; [done|]. rewrite Hn. apply insert_all_twice.
Qed.
End Further.

(** ** The further properties on the small election *)

Section FurtherExamples.
Import Election.
#[local] Existing Instance toy_environment.

(** The ended election after a second construction, a vote and two more
    [end_vote] calls. *)
Lemma ended_ballot_is_final_witness :
  initialized ended = true /\
  vote_ended (storage ended) = true /\
  run [construct; vote carol 7; close alice; close admin_id] ended = ended.
Proof.
  split_and!; [reflexivity|reflexivity|].
  apply ended_ballot_is_final; reflexivity.
Defined.

(** Alice and bob try to end the vote, and vote; the ballot stays open. *)
Lemma only_admin_ends_witness :
  vote_ended (storage (run [close alice; vote alice 7; close bob]
                           constructed)) = false.
Proof.
  apply only_admin_ends; [reflexivity|reflexivity|].
  repeat first [apply Forall_nil_2|apply Forall_cons_2];
    intros Hentry; first [discriminate Hentry|vm_compute; discriminate].
Defined.

(** Alice votes for 7 and bob for 9, in either order. *)
Lemma votes_commute_witness :
  nullifier_of alice constructed <> nullifier_of bob constructed /\
  run [vote alice 7; vote bob 9] constructed =
  run [vote bob 9; vote alice 7] constructed.
Proof.
  assert (Hne : nullifier_of alice constructed <> nullifier_of bob constructed)
    by (vm_compute; discriminate).
  split; [exact Hne|].
  exact (votes_commute constructed alice bob 6 6 7 9 Hne).
Defined.

(** Three more votes for candidate 7, which has two. *)
Lemma tally_after_calls_witness :
  votes (fst (repeat_call 3 (add_to_tally_public (mkCall ballot ballot 6) 7)
                (storage open))) 7 = 5.
Proof.
  destruct (tally_after_calls (mkCall ballot ballot 6) 7 2 (storage open)
              eq_refl eq_refl) as (_ & Hv & _).
  etrans; [exact Hv|]. vm_compute. reflexivity.
Defined.

(** Alice is the first to vote, for candidate 3. *)
Lemma first_vote_counts_one_witness :
  votes (storage (step (vote alice 3) (step construct (genesis ballot ∅)))) 3
  = 1.
Proof.
  destruct (first_vote_counts_one ballot ∅ admin_id admin_id alice 5 6 3)
    as (_ & Hv & _); [by compute_done|].
  exact Hv.
Defined.

(** Alice calls [add_to_tally_public] herself. *)
Lemma outsider_cannot_add_to_tally_witness :
  alice <> address open /\
  exists f, process (mkTx alice 6 (entry_add_to_tally_public 7)) open
            = (open, Reverted f).
Proof.
  assert (Hout : alice <> address open) by (vm_compute; discriminate).
  split; [exact Hout|].
  exact (outsider_cannot_add_to_tally open alice 6 7 Hout).
Defined.

(** Alice votes twice and ends nothing; bob votes once. *)
Example one_vote_per_voter_example :
  successes alice [vote alice 7; vote bob 7; vote alice 9; vote alice 7]
            constructed = 1%nat /\
  accepted 7 [vote alice 7; vote bob 7; vote alice 9; vote alice 7]
           constructed = 2%nat.
Proof. split; vm_compute; reflexivity. Qed.
End FurtherExamples.
